(** * Token-bucket rate limiter: a shallow embedding of [rate-limiter.go]

    The Go package keeps one [rateLimiter] value behind a pointer; every
    method locks [r.mx] on entry and releases it by [defer] on exit, so a
    method body is one critical section.  The embedding therefore takes a
    whole method body as one atomic step on the receiver, and a concurrent
    execution as a sequence of such steps.  What a method does to its
    collaborators (the response writer, the downstream handler, the Gin
    context) is recorded as a log of calls, in program order.

    The middlewares hand the request on ([next.ServeHTTP], [ctx.Next]) with
    the mutex still held.  A downstream handler that called a locking method
    of the same limiter would block there, so the downstream handler is taken
    not to touch the limiter: handing the request on is a logged call and
    leaves the receiver as it is. *)

From Stdlib Require Import ZArith String List Bool Lia.
From Stdlib Require Import DecimalString DecimalZ DecimalPos.
Import ListNotations.
Local Open Scope string_scope.
Local Open Scope list_scope.
Local Open Scope Z_scope.

(** ** The Go primitives the package uses *)

Module Go.

(** [len(s)] of a slice, as the integer Go hands back. *)
Definition len {A : Type} (s : list A) : Z := Z.of_nat (length s).

(** [fmt.Sprintf("%d", n)]: decimal digits, a leading [-] when negative. *)
Definition Sprintf_d (n : Z) : string := NilZero.string_of_int (Z.to_int n).

(** Reading a decimal back (what a client does with the header). *)
Definition Atoi (s : string) : option Z :=
  option_map Z.of_int (NilZero.int_of_string s).

End Go.

(** ** Data model *)

(** [time.Duration] is an [int64] count of nanoseconds; token markers are
    [int64] readings of [time.Now().UnixNano()].  No arithmetic is done on
    either, so they are carried as integers. *)
Definition Duration := Z.

(** [type rateLimiter struct]; the mutex is the atomicity of a step. *)
Record rateLimiter : Type := mkRateLimiter {
  RATE_LIMIT      : Z;
  REFILL_INTERVAL : Duration;
  tokenBucket     : list Z
}.

(** [type RateLimiterConfig struct] *)
Record RateLimiterConfig : Type := mkConfig {
  cfg_RATE_LIMIT      : Z;
  cfg_REFILL_INTERVAL : Duration
}.

(** [type BucketStatus struct] *)
Record BucketStatus : Type := mkStatus {
  BucketLimit       : Z;
  CurrentBucketSize : Z;
  Bucket            : list Z
}.

(** Values written into a response header.  [SecondsText d] stands for
    [fmt.Sprintf("%f second", d.Seconds())]: the floating-point rendering is
    kept symbolic, the duration it renders is not. *)
Inductive HeaderValue : Type :=
| Text (s : string)
| SecondsText (d : Duration).

(** JSON payloads handed to an encoder. *)
Inductive JSONValue : Type :=
| JBool (b : bool)
| JString (s : string).

Inductive Payload : Type :=
| StatusPayload (s : BucketStatus)
| MapPayload (fields : list (string * JSONValue)).

(** Calls a handler makes on its collaborators. *)
Inductive Effect : Type :=
| HeaderSet (key : string) (value : HeaderValue) (* Header().Set(key, value) *)
| WriteHeader (code : Z)                         (* w.WriteHeader(code) *)
| Encode (p : Payload)                           (* json.NewEncoder(w).Encode(p) *)
| ServeHTTP                                      (* next.ServeHTTP(w, request) *)
| CtxNext                                        (* ctx.Next() *)
| CtxJSON (code : Z) (p : Payload)               (* ctx.JSON(code, p) *)
| CtxAbort.                                      (* ctx.Abort() *)

Definition StatusOK : Z := 200.
Definition StatusTooManyRequests : Z := 429.

(** ** A state-and-log monad for method bodies *)

Definition Exec (A : Type) : Type := rateLimiter -> A * rateLimiter * list Effect.

Definition ret {A : Type} (a : A) : Exec A := fun r => (a, r, []).

Definition bind {A B : Type} (m : Exec A) (k : A -> Exec B) : Exec B :=
  fun r =>
    let '(a, r1, l1) := m r in
    let '(b, r2, l2) := k a r1 in
    (b, r2, l1 ++ l2).

Declare Scope exec_scope.
Delimit Scope exec_scope with exec.
Notation "x <- m ;; k" := (bind m (fun x => k))
  (at level 61, m at next level, right associativity) : exec_scope.
Notation "m ;; k" := (bind m (fun _ => k))
  (at level 61, right associativity) : exec_scope.
Local Open Scope exec_scope.

(** Reading the receiver, assigning its fields, calling a collaborator. *)
Definition self : Exec rateLimiter := fun r => (r, r, []).

Definition set_RATE_LIMIT (v : Z) : Exec unit :=
  fun r => (tt, mkRateLimiter v (REFILL_INTERVAL r) (tokenBucket r), []).

Definition set_REFILL_INTERVAL (v : Duration) : Exec unit :=
  fun r => (tt, mkRateLimiter (RATE_LIMIT r) v (tokenBucket r), []).

Definition set_tokenBucket (b : list Z) : Exec unit :=
  fun r => (tt, mkRateLimiter (RATE_LIMIT r) (REFILL_INTERVAL r) b, []).

Definition call (e : Effect) : Exec unit := fun r => (tt, r, [e]).

(** Projections of a run. *)
Definition state_after {A : Type} (m : Exec A) (r : rateLimiter) : rateLimiter :=
  snd (fst (m r)).

Definition log_of {A : Type} (m : Exec A) (r : rateLimiter) : list Effect :=
  snd (m r).

(** ** The methods of [rateLimiter] *)

(** [func New() RateLimiter { return &rateLimiter{} }]: the zero value. *)
Definition New : rateLimiter := mkRateLimiter 0 0 [].

(** [func (r *rateLimiter) SetConfig(rateLimiter RateLimiterConfig)] *)
Definition SetConfig (c : RateLimiterConfig) : Exec unit :=
  set_RATE_LIMIT (cfg_RATE_LIMIT c) ;;
  set_REFILL_INTERVAL (cfg_REFILL_INTERVAL c).

(** [func (r *rateLimiter) RefillBucket()]; [now] is the reading of
    [time.Now().UnixNano()] taken by this tick. *)
Definition RefillBucket (now : Z) : Exec unit :=
  r <- self ;;
  if Go.len (tokenBucket r) <? RATE_LIMIT r
  then set_tokenBucket (tokenBucket r ++ [now])
  else ret tt.

(** [func (r *rateLimiter) GetBucketStatusWithHTTP(w, request)] *)
Definition GetBucketStatusWithHTTP : Exec unit :=
  r <- self ;;
  let response := mkStatus (RATE_LIMIT r) (Go.len (tokenBucket r)) [] in
  call (HeaderSet "Content-Type" (Text "application/json")) ;;
  call (Encode (StatusPayload response)).

(** [func (r *rateLimiter) GetBucketStatusWithGin(ctx)] *)
Definition GetBucketStatusWithGin : Exec unit :=
  r <- self ;;
  call (HeaderSet "Content-Type" (Text "application/json")) ;;
  call (CtxJSON StatusOK
          (StatusPayload (mkStatus (RATE_LIMIT r) (Go.len (tokenBucket r)) []))).

(** The body both middlewares send with a 429. *)
Definition tooManyRequests : Payload :=
  MapPayload [("success", JBool false); ("message", JString "Too many requests")].

(** [func (r *rateLimiter) RateLimitHTTPMiddleware(next) http.Handler]: the
    handler it returns, run on one request.  [r.tokenBucket[1:]] is only
    reached with a non-empty slice, where it drops the first element. *)
Definition RateLimitHTTPMiddleware : Exec unit :=
  r <- self ;;
  if 0 <? Go.len (tokenBucket r) then
    set_tokenBucket (skipn 1 (tokenBucket r)) ;;
    r <- self ;;
    call (HeaderSet "X-RateLimit-Remaining"
            (Text (Go.Sprintf_d (Go.len (tokenBucket r))))) ;;
    call ServeHTTP
  else
    call (HeaderSet "X-RateLimit-Remaining" (Text "0")) ;;
    call (HeaderSet "Retry-After" (SecondsText (REFILL_INTERVAL r))) ;;
    call (WriteHeader StatusTooManyRequests) ;;
    call (Encode tooManyRequests).

(** [func (r *rateLimiter) RateLimitGinMiddleware() gin.HandlerFunc] *)
Definition RateLimitGinMiddleware : Exec unit :=
  r <- self ;;
  if 0 <? Go.len (tokenBucket r) then
    set_tokenBucket (skipn 1 (tokenBucket r)) ;;
    r <- self ;;
    call (HeaderSet "X-RateLimit-Remaining"
            (Text (Go.Sprintf_d (Go.len (tokenBucket r))))) ;;
    call CtxNext
  else
    call (HeaderSet "X-RateLimit-Remaining" (Text "0")) ;;
    call (HeaderSet "Retry-After" (SecondsText (REFILL_INTERVAL r))) ;;
    call (CtxJSON StatusTooManyRequests tooManyRequests) ;;
    call CtxAbort.

(** The two front-end bindings of the package. *)
Inductive Binding : Type := HTTP | Gin.

(** What each binding does once the request is let through or turned away. *)
Definition granted_log (b : Binding) (left : Z) : list Effect :=
  [HeaderSet "X-RateLimit-Remaining" (Text (Go.Sprintf_d left));
   match b with HTTP => ServeHTTP | Gin => CtxNext end].

Definition rejected_log (b : Binding) (interval : Duration) : list Effect :=
  HeaderSet "X-RateLimit-Remaining" (Text "0")
  :: HeaderSet "Retry-After" (SecondsText interval)
  :: match b with
     | HTTP => [WriteHeader StatusTooManyRequests; Encode tooManyRequests]
     | Gin => [CtxJSON StatusTooManyRequests tooManyRequests; CtxAbort]
     end.

(** ** What a client sees of one gate call *)

(** The two outcomes of a gate call: the request is granted passage to the
    downstream handler (the specification's admitted outcome), or rejected. *)
Inductive Decision : Type := Granted | Rejected.

(** The request reaches the downstream handler. *)
Definition passes_on (e : Effect) : bool :=
  match e with
  | ServeHTTP | CtxNext => true
  | _ => false
  end.

Definition decision_of (log : list Effect) : Decision :=
  if existsb passes_on log then Granted else Rejected.

(** [Header().Set] replaces the value of a key, so the last one stands. *)
Definition header (key : string) (log : list Effect) : option HeaderValue :=
  fold_left
    (fun acc e =>
       match e with
       | HeaderSet k v => if String.eqb k key then Some v else acc
       | _ => acc
       end)
    log None.

(** The status code the response carries, when the handler writes one. *)
Definition status_code (log : list Effect) : option Z :=
  fold_right
    (fun e acc =>
       match e with
       | WriteHeader c | CtxJSON c _ => Some c
       | _ => acc
       end)
    None log.

(** The payload the response carries, when the handler writes one. *)
Definition payload (log : list Effect) : option Payload :=
  fold_right
    (fun e acc =>
       match e with
       | Encode p | CtxJSON _ p => Some p
       | _ => acc
       end)
    None log.

(** Header writes alone, in program order. *)
Definition headers_written (log : list Effect) : list (string * HeaderValue) :=
  flat_map (fun e => match e with HeaderSet k v => [(k, v)] | _ => [] end) log.

Definition remaining_of (log : list Effect) : option Z :=
  match header "X-RateLimit-Remaining" log with
  | Some (Text s) => Go.Atoi s
  | _ => None
  end.

Definition retry_hint_of (log : list Effect) : option Duration :=
  match header "Retry-After" log with
  | Some (SecondsText d) => Some d
  | _ => None
  end.

Record GateResult : Type := mkGateResult {
  decision   : Decision;
  remaining  : option Z;
  retry_hint : option Duration
}.

Definition gate_result (log : list Effect) : GateResult :=
  mkGateResult (decision_of log) (remaining_of log) (retry_hint_of log).

(** The snapshot a status handler reports. *)
Definition reported_status (log : list Effect) : option BucketStatus :=
  match payload log with
  | Some (StatusPayload s) => Some s
  | _ => None
  end.

(** ** Operations and their interleavings *)

Definition gate (b : Binding) : Exec unit :=
  match b with
  | HTTP => RateLimitHTTPMiddleware
  | Gin => RateLimitGinMiddleware
  end.

Definition status (b : Binding) : Exec unit :=
  match b with
  | HTTP => GetBucketStatusWithHTTP
  | Gin => GetBucketStatusWithGin
  end.

(** One atomic step: a call of [RefillBucket] (made by the ticker that
    [Run] starts, once per [REFILL_INTERVAL]; the method is also exported
    through the interface), a request through a middleware, or a status
    request. *)
Inductive Op : Type :=
| Tick (now : Z)
| Gate (b : Binding)
| Status (b : Binding).

Definition step (o : Op) : Exec unit :=
  match o with
  | Tick now => RefillBucket now
  | Gate b => gate b
  | Status b => status b
  end.

(** The state after a sequence of steps. *)
Fixpoint run (ops : list Op) (r : rateLimiter) : rateLimiter :=
  match ops with
  | [] => r
  | o :: ops' => run ops' (state_after (step o) r)
  end.

(** Every state the sequence goes through, the first and the last included. *)
Fixpoint history (ops : list Op) (r : rateLimiter) : list rateLimiter :=
  r :: match ops with
       | [] => []
       | o :: ops' => history ops' (state_after (step o) r)
       end.

(** The log of every step, in order. *)
Fixpoint logs (ops : list Op) (r : rateLimiter) : list (Op * list Effect) :=
  match ops with
  | [] => []
  | o :: ops' => (o, log_of (step o) r) :: logs ops' (state_after (step o) r)
  end.

(** The decisions of the gate calls among the steps. *)
Definition gate_decisions (ops : list Op) (r : rateLimiter) : list Decision :=
  flat_map
    (fun ol => match fst ol with
               | Gate _ => [decision_of (snd ol)]
               | _ => []
               end)
    (logs ops r).

(** [n] ticks of the ticker, with the clock readings they take. *)
Definition ticks (nows : list Z) : list Op := map Tick nows.

(** The capacity invariant. *)
Definition within_capacity (r : rateLimiter) : Prop :=
  0 <= Go.len (tokenBucket r) <= RATE_LIMIT r.

(** ** Concurrent callers of the gate *)

(** A caller is a request in flight through one of the middlewares. *)
Record Caller : Type := mkCaller {
  caller_id : nat;
  via       : Binding
}.

(** What one caller got: its decision and the tokens its call took out of
    the bucket (the prefix by which the bucket got shorter). *)
Record Served : Type := mkServed {
  who     : Caller;
  outcome : Decision;
  took    : list Z
}.

Definition consumed (before after : rateLimiter) : list Z :=
  firstn (length (tokenBucket before) - length (tokenBucket after))%nat
         (tokenBucket before).

(** The lock serialises the callers; [sched] is the order in which they
    acquire it. *)
Fixpoint serve (sched : list Caller) (r : rateLimiter) : list Served * rateLimiter :=
  match sched with
  | [] => ([], r)
  | c :: rest =>
      let r' := state_after (gate (via c)) r in
      let s := mkServed c (decision_of (log_of (gate (via c)) r)) (consumed r r') in
      let '(ss, r'') := serve rest r' in
      (s :: ss, r'')
  end.

Definition Decision_eqb (a b : Decision) : bool :=
  match a, b with
  | Granted, Granted | Rejected, Rejected => true
  | _, _ => false
  end.

Definition count_outcome (d : Decision) (ss : list Served) : nat :=
  length (filter (fun s => Decision_eqb (outcome s) d) ss).

(** ** Token traffic *)

(** The tokens a step put into the bucket: what the bucket holds beyond its
    former length. *)
Definition produced (before after : rateLimiter) : list Z :=
  skipn (length (tokenBucket before)) (tokenBucket after).

(** All tokens put in, and all tokens taken out, along a sequence of steps. *)
Fixpoint appended (ops : list Op) (r : rateLimiter) : list Z :=
  match ops with
  | [] => []
  | o :: ops' =>
      produced r (state_after (step o) r) ++ appended ops' (state_after (step o) r)
  end.

Fixpoint removed (ops : list Op) (r : rateLimiter) : list Z :=
  match ops with
  | [] => []
  | o :: ops' =>
      consumed r (state_after (step o) r) ++ removed ops' (state_after (step o) r)
  end.

(** The clock readings of the ticks among the steps. *)
Definition tick_readings (ops : list Op) : list Z :=
  flat_map (fun o => match o with Tick now => [now] | _ => [] end) ops.

Definition tick_count (ops : list Op) : nat := length (tick_readings ops).

Definition granted_count (ops : list Op) (r : rateLimiter) : nat :=
  length (filter (fun d => Decision_eqb d Granted) (gate_decisions ops r)).

(** [s] is [l] with some elements left out. *)
Inductive subsequence : list Z -> list Z -> Prop :=
| subsequence_nil : subsequence [] []
| subsequence_keep (x : Z) (s l : list Z) :
    subsequence s l -> subsequence (x :: s) (x :: l)
| subsequence_drop (x : Z) (s l : list Z) :
    subsequence s l -> subsequence s (x :: l).

(** One tick, then one request, for each clock reading. *)
Definition tick_then_gate (b : Binding) (nows : list Z) : list Op :=
  flat_map (fun now => [Tick now; Gate b]) nows.

(** ** The mutex made explicit *)

(** The methods again, this time with [r.mx] as a field and the downstream
    handler as the argument it is in the source.  A goroutine that calls
    [Lock] on a held mutex is parked; Go mutexes are not reentrant, so this
    holds also when the holder is a frame further up its own stack.  A panic
    unwinds the stack and runs the deferred calls on its way. *)

Module Locked.

Record Guarded : Type := mkGuarded {
  limiter : rateLimiter;
  mx      : bool            (* [true] while the mutex is held *)
}.

Inductive Outcome (A : Type) : Type :=
| Returns (a : A) (g : Guarded) (log : list Effect)
| Parked (g : Guarded) (log : list Effect)
| Panics (g : Guarded) (log : list Effect).

Arguments Returns {A} a g log.
Arguments Parked {A} g log.
Arguments Panics {A} g log.

Definition Locking (A : Type) : Type := Guarded -> Outcome A.

Definition lret {A : Type} (a : A) : Locking A := fun g => Returns a g [].

Definition lbind {A B : Type} (m : Locking A) (k : A -> Locking B) : Locking B :=
  fun g =>
    match m g with
    | Returns a g1 l1 =>
        match k a g1 with
        | Returns b g2 l2 => Returns b g2 (l1 ++ l2)
        | Parked g2 l2 => Parked g2 (l1 ++ l2)
        | Panics g2 l2 => Panics g2 (l1 ++ l2)
        end
    | Parked g1 l1 => Parked g1 l1
    | Panics g1 l1 => Panics g1 l1
    end.

Declare Scope locking_scope.
Delimit Scope locking_scope with locking.
Notation "x <- m ;; k" := (lbind m (fun x => k))
  (at level 61, m at next level, right associativity) : locking_scope.
Notation "m ;; k" := (lbind m (fun _ => k))
  (at level 61, right associativity) : locking_scope.
Local Open Scope locking_scope.

(** A method body of the atomic embedding, run on the limiter. *)
Definition lift {A : Type} (m : Exec A) : Locking A :=
  fun g =>
    let '(a, r, l) := m (limiter g) in
    Returns a (mkGuarded r (mx g)) l.

(** [panic(...)], here a run-time panic of an index expression. *)
Definition panic {A : Type} : Locking A := fun g => Panics g [].

(** [r.mx.Lock()] *)
Definition Lock : Locking unit :=
  fun g => if mx g then Parked g [] else Returns tt (mkGuarded (limiter g) true) [].

(** [r.mx.Unlock()].  Each one in the package is the deferred partner of a
    [Lock] that returned, so it finds the mutex held. *)
Definition Unlock (g : Guarded) : Guarded := mkGuarded (limiter g) false.

(** [defer f()] before [body]: [f] runs when [body] returns or panics, not
    while it is parked. *)
Definition deferring {A : Type} (f : Guarded -> Guarded) (body : Locking A) : Locking A :=
  fun g =>
    match body g with
    | Returns a g' l => Returns a (f g') l
    | Parked g' l => Parked g' l
    | Panics g' l => Panics (f g') l
    end.

(** [s[i]] on a slice: a run-time panic outside [0 <= i < len(s)]. *)
Definition index {A : Type} (s : list A) (i : Z) : option A :=
  if (i <? 0) || (Go.len s <=? i) then None else nth_error s (Z.to_nat i).

(** [time.NewTicker(d)] panics on a non-positive [d]. *)
Definition NewTicker (d : Duration) : Locking Duration :=
  if d <=? 0 then panic else lret d.

Definition Second : Duration := 1000000000.

(** [func (r *rateLimiter) RefillBucket()] *)
Definition RefillBucket (now : Z) : Locking unit :=
  Lock ;; deferring Unlock (lift (RefillBucket now)).

(** [func (r *rateLimiter) GetBucketStatusWithHTTP(w, request)] *)
Definition GetBucketStatusWithHTTP : Locking unit :=
  Lock ;; deferring Unlock (lift GetBucketStatusWithHTTP).

(** [func (r *rateLimiter) GetBucketStatusWithGin(ctx)] *)
Definition GetBucketStatusWithGin : Locking unit :=
  Lock ;; deferring Unlock (lift GetBucketStatusWithGin).

(** [func (r *rateLimiter) RateLimitHTTPMiddleware(next http.Handler)]:
    [next.ServeHTTP] is logged, then [next] runs, inside the critical
    section. *)
Definition RateLimitHTTPMiddleware (next : Locking unit) : Locking unit :=
  Lock ;;
  deferring Unlock
    (r <- lift self ;;
     if 0 <? Go.len (tokenBucket r) then
       lift (set_tokenBucket (skipn 1 (tokenBucket r))) ;;
       r <- lift self ;;
       lift (call (HeaderSet "X-RateLimit-Remaining"
                     (Text (Go.Sprintf_d (Go.len (tokenBucket r)))))) ;;
       lift (call ServeHTTP) ;;
       next
     else
       lift (call (HeaderSet "X-RateLimit-Remaining" (Text "0"))) ;;
       lift (call (HeaderSet "Retry-After" (SecondsText (REFILL_INTERVAL r)))) ;;
       lift (call (WriteHeader StatusTooManyRequests)) ;;
       lift (call (Encode tooManyRequests))).

(** [func (r *rateLimiter) RateLimitGinMiddleware() gin.HandlerFunc], with
    the handlers that follow it in the chain as [rest]: [ctx.Next()] runs
    them before it returns, [ctx.Abort()] keeps them from running at all. *)
Definition RateLimitGinMiddleware (rest : Locking unit) : Locking unit :=
  Lock ;;
  deferring Unlock
    (r <- lift self ;;
     if 0 <? Go.len (tokenBucket r) then
       lift (set_tokenBucket (skipn 1 (tokenBucket r))) ;;
       r <- lift self ;;
       lift (call (HeaderSet "X-RateLimit-Remaining"
                     (Text (Go.Sprintf_d (Go.len (tokenBucket r)))))) ;;
       lift (call CtxNext) ;;
       rest
     else
       lift (call (HeaderSet "X-RateLimit-Remaining" (Text "0"))) ;;
       lift (call (HeaderSet "Retry-After" (SecondsText (REFILL_INTERVAL r)))) ;;
       lift (call (CtxJSON StatusTooManyRequests tooManyRequests)) ;;
       lift (call CtxAbort)).

Definition gate (b : Binding) (next : Locking unit) : Locking unit :=
  match b with
  | HTTP => RateLimitHTTPMiddleware next
  | Gin => RateLimitGinMiddleware next
  end.

Definition status (b : Binding) : Locking unit :=
  match b with
  | HTTP => GetBucketStatusWithHTTP
  | Gin => GetBucketStatusWithGin
  end.

(** [func (r *rateLimiter) Run()]: the value returned is the period of the
    ticker whose ticks the spawned goroutine turns into [RefillBucket]
    calls.  The interval is read once, here, and without the mutex. *)
Definition Run : Locking Duration :=
  r <- lift self ;;
  NewTicker (REFILL_INTERVAL r).

Definition rockPaperScissors : list string :=
  ["rock 🪨"; "paper 📃"; "scissors ✂️"]%string.

(** [func TestEndpointWtihHTTP(w, r)]; [now] is the reading of
    [time.Now().UnixNano()], and Go's [%] truncates towards zero. *)
Definition TestEndpointWtihHTTP (now : Z) : Locking unit :=
  match index rockPaperScissors (Z.rem now 3) with
  | None => panic
  | Some randomChoice =>
      let response :=
        MapPayload [("success", JBool true);
                    ("message", JString (String.append "You got " randomChoice))] in
      lift (call (HeaderSet "Content-Type" (Text "application/json"))) ;;
      lift (call (Encode response))
  end.

(** [func TestEndpointWithGin(ctx)] *)
Definition TestEndpointWithGin (now : Z) : Locking unit :=
  match index rockPaperScissors (Z.rem now 3) with
  | None => panic
  | Some randomChoice =>
      let response :=
        MapPayload [("success", JBool true);
                    ("message", JString (String.append "You got " randomChoice))] in
      lift (call (HeaderSet "Content-Type" (Text "application/json"))) ;;
      lift (call (CtxJSON StatusOK response))
  end.

(** [func main()]: the limiter it sets up and starts, and the two routes it
    registers behind [r.Use(rateLimiter.RateLimitGinMiddleware())]. *)
Definition main_startup : Locking Duration :=
  lift (SetConfig (mkConfig 1000 (2 * Second))) ;;
  Run.

Definition GET_test_bucket : Locking unit :=
  RateLimitGinMiddleware GetBucketStatusWithGin.

Definition POST_test (now : Z) : Locking unit :=
  RateLimitGinMiddleware (TestEndpointWithGin now).

(** What a call did to its collaborators, however it ended. *)
Definition trace {A : Type} (o : Outcome A) : list Effect :=
  match o with
  | Returns _ _ l | Parked _ l | Panics _ l => l
  end.

End Locked.

(** Unfolding a method body down to the state and the log. *)
Ltac exec_unfold :=
  unfold state_after, log_of, step, gate, status,
    SetConfig, RefillBucket, GetBucketStatusWithHTTP, GetBucketStatusWithGin,
    RateLimitHTTPMiddleware, RateLimitGinMiddleware,
    bind, ret, self, call, set_RATE_LIMIT, set_REFILL_INTERVAL, set_tokenBucket.

(** ** Facts about the Go primitives *)

Module GoFacts.

Lemma len_nonneg {A : Type} (s : list A) : 0 <= Go.len s.
Proof. unfold Go.len. lia. Qed.

Lemma len_nil {A : Type} : Go.len (@nil A) = 0.
Proof. reflexivity. Qed.

Lemma len_cons {A : Type} (a : A) (s : list A) : Go.len (a :: s) = Go.len s + 1.
Proof. unfold Go.len. cbn [length]. lia. Qed.

Lemma len_app {A : Type} (s t : list A) : Go.len (s ++ t) = Go.len s + Go.len t.
Proof. unfold Go.len. rewrite length_app. lia. Qed.

Lemma to_int_proper (n : Z) :
  Z.to_int n <> Decimal.Pos Decimal.Nil /\ Z.to_int n <> Decimal.Neg Decimal.Nil.
Proof.
  destruct n as [|p|p]; cbn; split; try discriminate;
    intros [= E]; exact (Unsigned.to_uint_nonnil p E).
Qed.

Lemma Atoi_Sprintf_d (n : Z) : Go.Atoi (Go.Sprintf_d n) = Some n.
Proof.
  unfold Go.Atoi, Go.Sprintf_d.
  destruct (to_int_proper n) as [Hp Hn].
  rewrite (NilZero.isi _ Hp Hn). cbn [option_map].
  now rewrite DecimalZ.of_to.
Qed.

End GoFacts.

(** ** Equations of the methods *)

Lemma rateLimiter_eta (r : rateLimiter) :
  mkRateLimiter (RATE_LIMIT r) (REFILL_INTERVAL r) (tokenBucket r) = r.
Proof. now destruct r. Qed.

Lemma SetConfig_eq (c : RateLimiterConfig) (r : rateLimiter) :
  SetConfig c r =
  (tt, mkRateLimiter (cfg_RATE_LIMIT c) (cfg_REFILL_INTERVAL c) (tokenBucket r), []).
Proof. reflexivity. Qed.

Lemma RefillBucket_eq (now : Z) (r : rateLimiter) :
  RefillBucket now r =
  (tt,
   if Go.len (tokenBucket r) <? RATE_LIMIT r
   then mkRateLimiter (RATE_LIMIT r) (REFILL_INTERVAL r) (tokenBucket r ++ [now])
   else r,
   []).
Proof.
  exec_unfold. now destruct (Go.len (tokenBucket r) <? RATE_LIMIT r).
Qed.

Lemma gate_eq (b : Binding) (r : rateLimiter) :
  gate b r =
  match tokenBucket r with
  | [] => (tt, r, rejected_log b (REFILL_INTERVAL r))
  | _ :: rest =>
      (tt, mkRateLimiter (RATE_LIMIT r) (REFILL_INTERVAL r) rest,
       granted_log b (Go.len rest))
  end.
Proof.
  destruct r as [cap iv [|t rest]]; destruct b; try reflexivity;
    exec_unfold; cbn [tokenBucket RATE_LIMIT REFILL_INTERVAL];
    rewrite GoFacts.len_cons;
    (replace (0 <? Go.len rest + 1) with true
      by (symmetry; apply Z.ltb_lt; pose proof (GoFacts.len_nonneg rest); lia));
    reflexivity.
Qed.

Lemma status_eq (b : Binding) (r : rateLimiter) :
  status b r =
  (tt, r,
   let snapshot := StatusPayload (mkStatus (RATE_LIMIT r) (Go.len (tokenBucket r)) []) in
   HeaderSet "Content-Type" (Text "application/json")
   :: match b with
      | HTTP => [Encode snapshot]
      | Gin => [CtxJSON StatusOK snapshot]
      end).
Proof. now destruct b. Qed.

Lemma gate_nonempty_test (r : rateLimiter) :
  (0 <? Go.len (tokenBucket r)) = match tokenBucket r with [] => false | _ => true end.
Proof.
  destruct (tokenBucket r) as [|t rest]; [reflexivity|].
  rewrite GoFacts.len_cons. apply Z.ltb_lt.
  pose proof (GoFacts.len_nonneg rest). lia.
Qed.

(** *** Frame: configuration fields *)

Lemma step_RATE_LIMIT (o : Op) (r : rateLimiter) :
  RATE_LIMIT (state_after (step o) r) = RATE_LIMIT r.
Proof.
  destruct o as [now|b|b]; unfold state_after, step.
  - rewrite RefillBucket_eq. cbn [fst snd].
    now destruct (Go.len (tokenBucket r) <? RATE_LIMIT r).
  - rewrite gate_eq. now destruct (tokenBucket r).
  - now rewrite status_eq.
Qed.

Lemma step_REFILL_INTERVAL (o : Op) (r : rateLimiter) :
  REFILL_INTERVAL (state_after (step o) r) = REFILL_INTERVAL r.
Proof.
  destruct o as [now|b|b]; unfold state_after, step.
  - rewrite RefillBucket_eq. cbn [fst snd].
    now destruct (Go.len (tokenBucket r) <? RATE_LIMIT r).
  - rewrite gate_eq. now destruct (tokenBucket r).
  - now rewrite status_eq.
Qed.

Lemma run_RATE_LIMIT (ops : list Op) (r : rateLimiter) :
  RATE_LIMIT (run ops r) = RATE_LIMIT r.
Proof.
  revert r. induction ops as [|o ops IH]; intros r; cbn [run]; [reflexivity|].
  now rewrite IH, step_RATE_LIMIT.
Qed.

Lemma run_REFILL_INTERVAL (ops : list Op) (r : rateLimiter) :
  REFILL_INTERVAL (run ops r) = REFILL_INTERVAL r.
Proof.
  revert r. induction ops as [|o ops IH]; intros r; cbn [run]; [reflexivity|].
  now rewrite IH, step_REFILL_INTERVAL.
Qed.

(** *** The invariant is inductive *)

Lemma step_within_capacity (o : Op) (r : rateLimiter) :
  within_capacity r -> within_capacity (state_after (step o) r).
Proof.
  unfold within_capacity. intros [Hlo Hhi].
  destruct o as [now|b|b]; unfold state_after, step.
  - rewrite RefillBucket_eq. cbn [fst snd].
    destruct (Z.ltb_spec (Go.len (tokenBucket r)) (RATE_LIMIT r)) as [Hlt|Hge].
    + cbn [tokenBucket RATE_LIMIT]. rewrite GoFacts.len_app.
      change (Go.len [now]) with 1. lia.
    + lia.
  - rewrite gate_eq. destruct (tokenBucket r) as [|t rest] eqn:E; cbn [fst snd].
    + rewrite E. lia.
    + cbn [tokenBucket RATE_LIMIT]. rewrite GoFacts.len_cons in Hhi.
      pose proof (GoFacts.len_nonneg rest). lia.
  - rewrite status_eq. cbn [fst snd]. lia.
Qed.

Lemma history_within_capacity (ops : list Op) (r : rateLimiter) :
  within_capacity r -> Forall within_capacity (history ops r).
Proof.
  revert r. induction ops as [|o ops IH]; intros r Hr; cbn [history].
  - now constructor.
  - constructor; [assumption|]. apply IH. now apply step_within_capacity.
Qed.

Lemma history_nonempty (ops : list Op) (r : rateLimiter) : history ops r <> [].
Proof. destruct ops; discriminate. Qed.

Lemma history_last (ops : list Op) (r d : rateLimiter) :
  last (history ops r) d = run ops r.
Proof.
  revert r d. induction ops as [|o ops IH]; intros r d; [reflexivity|].
  cbn [run]. rewrite <- (IH (state_after (step o) r) d).
  change (history (o :: ops) r) with (r :: history ops (state_after (step o) r)).
  pose proof (history_nonempty ops (state_after (step o) r)) as Hne.
  cbn [last]. destruct (history ops (state_after (step o) r)); [contradiction|reflexivity].
Qed.

Lemma run_within_capacity (ops : list Op) (r : rateLimiter) :
  within_capacity r -> within_capacity (run ops r).
Proof.
  revert r. induction ops as [|o ops IH]; intros r Hr; cbn [run]; [assumption|].
  apply IH. now apply step_within_capacity.
Qed.

Lemma configured_within_capacity (c : RateLimiterConfig) :
  0 <= cfg_RATE_LIMIT c -> within_capacity (state_after (SetConfig c) New).
Proof. unfold within_capacity. cbn. lia. Qed.

(** *** What the client reads off a gate call *)

Lemma gate_result_granted (b : Binding) (left : Z) :
  gate_result (granted_log b left) = mkGateResult Granted (Some left) None.
Proof.
  unfold gate_result, remaining_of, retry_hint_of, decision_of.
  destruct b; cbn; now rewrite GoFacts.Atoi_Sprintf_d.
Qed.

Lemma gate_result_rejected (b : Binding) (interval : Duration) :
  gate_result (rejected_log b interval) = mkGateResult Rejected (Some 0) (Some interval).
Proof. now destruct b. Qed.

Lemma status_code_rejected (b : Binding) (interval : Duration) :
  status_code (rejected_log b interval) = Some StatusTooManyRequests.
Proof. now destruct b. Qed.

(** *** Ticks *)

Lemma run_app (ops1 ops2 : list Op) (r : rateLimiter) :
  run (ops1 ++ ops2) r = run ops2 (run ops1 r).
Proof.
  revert r. induction ops1 as [|o ops1 IH]; intros r; [reflexivity|].
  cbn [app run]. apply IH.
Qed.

Lemma tick_full (now : Z) (r : rateLimiter) :
  RATE_LIMIT r <= Go.len (tokenBucket r) -> state_after (RefillBucket now) r = r.
Proof.
  intros H. unfold state_after. rewrite RefillBucket_eq. cbn [fst snd].
  destruct (Z.ltb_spec (Go.len (tokenBucket r)) (RATE_LIMIT r)); [lia|reflexivity].
Qed.

Lemma ticks_full (nows : list Z) (r : rateLimiter) :
  RATE_LIMIT r <= Go.len (tokenBucket r) -> run (ticks nows) r = r.
Proof.
  intros H. induction nows as [|now nows IH]; [reflexivity|].
  cbn [ticks map run step]. now rewrite (tick_full now r H).
Qed.

Lemma ticks_fill (nows : list Z) (r : rateLimiter) :
  Go.len (tokenBucket r) + Go.len nows <= RATE_LIMIT r ->
  run (ticks nows) r =
  mkRateLimiter (RATE_LIMIT r) (REFILL_INTERVAL r) (tokenBucket r ++ nows).
Proof.
  revert r. induction nows as [|now nows IH]; intros r H.
  - cbn [ticks map run]. rewrite app_nil_r. symmetry. apply rateLimiter_eta.
  - rewrite GoFacts.len_cons in H. pose proof (GoFacts.len_nonneg nows) as Hn.
    cbn [ticks map run step]. unfold state_after at 1. rewrite RefillBucket_eq.
    cbn [fst snd].
    destruct (Z.ltb_spec (Go.len (tokenBucket r)) (RATE_LIMIT r)) as [_|Hge]; [|lia].
    fold (ticks nows). rewrite IH; cbn [tokenBucket RATE_LIMIT REFILL_INTERVAL].
    + now rewrite <- app_assoc.
    + rewrite GoFacts.len_app. change (Go.len [now]) with 1. lia.
Qed.

Lemma ticks_bounded (nows : list Z) (r : rateLimiter) :
  Go.len (tokenBucket (run (ticks nows) r))
  <= Z.max (Go.len (tokenBucket r)) (RATE_LIMIT r).
Proof.
  revert r. induction nows as [|now nows IH]; intros r.
  - cbn [ticks map run]. lia.
  - cbn [ticks map run step]. fold (ticks nows).
    etransitivity; [apply IH|].
    unfold state_after. rewrite RefillBucket_eq. cbn [fst snd].
    destruct (Z.ltb_spec (Go.len (tokenBucket r)) (RATE_LIMIT r)) as [Hlt|Hge].
    + cbn [tokenBucket RATE_LIMIT]. rewrite GoFacts.len_app.
      change (Go.len [now]) with 1. lia.
    + lia.
Qed.

(** *** Serving a schedule of callers *)

Lemma consumed_gate (b : Binding) (r : rateLimiter) :
  consumed r (state_after (gate b) r) =
  match tokenBucket r with [] => [] | t :: _ => [t] end.
Proof.
  unfold consumed, state_after. rewrite gate_eq.
  destruct (tokenBucket r) as [|t rest] eqn:E; cbn [fst snd].
  - now rewrite E.
  - cbn [tokenBucket length]. replace (S (length rest) - length rest)%nat with 1%nat by lia.
    reflexivity.
Qed.

Lemma decision_gate (b : Binding) (r : rateLimiter) :
  decision_of (log_of (gate b) r) =
  match tokenBucket r with [] => Rejected | _ :: _ => Granted end.
Proof.
  unfold log_of. rewrite gate_eq.
  destruct (tokenBucket r); destruct b; reflexivity.
Qed.

Lemma serve_cons (c : Caller) (sched : list Caller) (r : rateLimiter) :
  serve (c :: sched) r =
  (mkServed c (decision_of (log_of (gate (via c)) r))
            (consumed r (state_after (gate (via c)) r))
   :: fst (serve sched (state_after (gate (via c)) r)),
   snd (serve sched (state_after (gate (via c)) r))).
Proof.
  cbn [serve]. now destruct (serve sched (state_after (gate (via c)) r)).
Qed.

Lemma serve_who (sched : list Caller) (r : rateLimiter) :
  map who (fst (serve sched r)) = sched.
Proof.
  revert r. induction sched as [|c sched IH]; intros r; [reflexivity|].
  rewrite serve_cons. cbn [fst map who]. now rewrite IH.
Qed.

Lemma serve_empty (sched : list Caller) (r : rateLimiter) :
  tokenBucket r = [] ->
  map outcome (fst (serve sched r)) = repeat Rejected (length sched)
  /\ map took (fst (serve sched r)) = repeat [] (length sched)
  /\ snd (serve sched r) = r.
Proof.
  intros E. induction sched as [|c sched IH]; [now repeat split|].
  rewrite serve_cons, decision_gate, consumed_gate.
  assert (Hr : state_after (gate (via c)) r = r).
  { unfold state_after. rewrite gate_eq. now rewrite E. }
  rewrite Hr, E. destruct IH as (IHo & IHt & IHs).
  cbn [fst snd map outcome took length repeat]. now rewrite IHo, IHt.
Qed.

Lemma serve_spec (sched : list Caller) (r : rateLimiter) :
  (length (tokenBucket r) <= length sched)%nat ->
  map outcome (fst (serve sched r))
  = repeat Granted (length (tokenBucket r))
    ++ repeat Rejected (length sched - length (tokenBucket r))
  /\ map took (fst (serve sched r))
     = map (fun t => [t]) (tokenBucket r)
       ++ repeat [] (length sched - length (tokenBucket r))
  /\ tokenBucket (snd (serve sched r)) = [].
Proof.
  revert r. induction sched as [|c sched IH]; intros r H.
  - cbn [length serve fst snd map] in *.
    destruct (tokenBucket r); [now repeat split|cbn in H; lia].
  - destruct (tokenBucket r) as [|t rest] eqn:E.
    + destruct (serve_empty (c :: sched) r E) as (Ho & Ht & Hs).
      rewrite Ho, Ht, Hs, E. cbn [length repeat map app]. now rewrite Nat.sub_0_r.
    + rewrite serve_cons, decision_gate, consumed_gate, E.
      assert (Hr : tokenBucket (state_after (gate (via c)) r) = rest).
      { unfold state_after. rewrite gate_eq. now rewrite E. }
      cbn [length] in H.
      destruct (IH (state_after (gate (via c)) r)) as (IHo & IHt & IHs);
        [rewrite Hr; lia|].
      rewrite Hr in IHo, IHt.
      cbn [fst snd map outcome took length repeat app Nat.sub].
      now rewrite IHo, IHt, IHs.
Qed.

Lemma count_outcome_map (d : Decision) (ss : list Served) :
  count_outcome d ss
  = length (filter (fun o => Decision_eqb o d) (map outcome ss)).
Proof.
  unfold count_outcome. induction ss as [|s ss IH]; [reflexivity|].
  cbn [filter map]. destruct (Decision_eqb (outcome s) d); cbn [length]; now rewrite IH.
Qed.

Lemma filter_repeat_same (d : Decision) (n : nat) :
  filter (fun o => Decision_eqb o d) (repeat d n) = repeat d n.
Proof.
  induction n as [|n IH]; [reflexivity|].
  cbn [repeat filter]. destruct d; cbn [Decision_eqb]; now rewrite IH.
Qed.

Lemma filter_repeat_other (d e : Decision) (n : nat) :
  Decision_eqb e d = false ->
  filter (fun o => Decision_eqb o d) (repeat e n) = [].
Proof.
  intros H. induction n as [|n IH]; [reflexivity|].
  cbn [repeat filter]. now rewrite H.
Qed.

(** *** A bucket of non-positive capacity stays empty *)

Lemma step_stays_empty (o : Op) (r : rateLimiter) :
  RATE_LIMIT r <= 0 -> tokenBucket r = [] ->
  state_after (step o) r = r.
Proof.
  intros Hcap E. destruct o as [now|b|b]; unfold step.
  - apply tick_full. rewrite E. exact Hcap.
  - unfold state_after. rewrite gate_eq. now rewrite E.
  - unfold state_after. now rewrite status_eq.
Qed.

Lemma never_admits (ops : list Op) (r : rateLimiter) :
  RATE_LIMIT r <= 0 -> tokenBucket r = [] ->
  Forall (eq Rejected) (gate_decisions ops r).
Proof.
  intros Hcap E. unfold gate_decisions.
  induction ops as [|o ops IH]; [constructor|].
  cbn [logs flat_map fst snd]. rewrite (step_stays_empty o r Hcap E).
  apply Forall_app. split; [|exact IH].
  destruct o as [now|b|b]; try constructor; [|constructor].
  unfold step. rewrite decision_gate. now rewrite E.
Qed.

(** ** Concrete runs *)

Example gate_on_three_tokens :
  RateLimitHTTPMiddleware (mkRateLimiter 3 1000000000 [41; 42; 43])
  = (tt, mkRateLimiter 3 1000000000 [42; 43],
     [HeaderSet "X-RateLimit-Remaining" (Text "2"); ServeHTTP]).
Proof. reflexivity. Qed.

Example gate_on_empty_bucket :
  RateLimitGinMiddleware (mkRateLimiter 3 1000000000 [])
  = (tt, mkRateLimiter 3 1000000000 [],
     [HeaderSet "X-RateLimit-Remaining" (Text "0");
      HeaderSet "Retry-After" (SecondsText 1000000000);
      CtxJSON 429 tooManyRequests; CtxAbort]).
Proof. reflexivity. Qed.

Example fresh_limiter_rejects :
  gate_decisions [Gate HTTP; Tick 1; Gate HTTP; Gate HTTP]
                 (state_after (SetConfig (mkConfig 3 1000000000)) New)
  = [Rejected; Granted; Rejected].
Proof. reflexivity. Qed.

Example ticks_are_capped :
  Go.len (tokenBucket (run (ticks [1; 2; 3])
                           (state_after (SetConfig (mkConfig 2 100000000)) New))) = 2.
Proof. reflexivity. Qed.

Example status_of_two_tokens :
  reported_status (log_of GetBucketStatusWithHTTP (mkRateLimiter 5 1000000000 [8; 9]))
  = Some (mkStatus 5 2 []).
Proof. reflexivity. Qed.

(** ** The properties of the specification *)

(** C1 (capacity invariant).  A limiter created by [New] and configured
    with a positive capacity keeps [0 <= len(tokenBucket) <= RATE_LIMIT],
    with [RATE_LIMIT] the configured capacity, in every state it goes
    through under any sequence of refill ticks, gate calls and status reads:
    before the first step, between steps and after the last. *)
Theorem capacity_invariant (c : RateLimiterConfig) (ops : list Op) :
  0 < cfg_RATE_LIMIT c ->
  Forall (fun r => 0 <= Go.len (tokenBucket r) <= cfg_RATE_LIMIT c)
         (history ops (state_after (SetConfig c) New)).
Proof.
  intros Hcap.
  set (r0 := state_after (SetConfig c) New).
  assert (Hinv : within_capacity r0 /\ RATE_LIMIT r0 = cfg_RATE_LIMIT c).
  { split; [apply configured_within_capacity; lia|reflexivity]. }
  clearbody r0. revert r0 Hinv.
  induction ops as [|o ops IH]; intros r [Hin Heq]; cbn [history].
  - constructor; [|constructor]. unfold within_capacity in Hin. lia.
  - constructor.
    + unfold within_capacity in Hin. lia.
    + apply IH. split.
      * now apply step_within_capacity.
      * now rewrite step_RATE_LIMIT.
Qed.

Lemma capacity_invariant_witness :
  0 < cfg_RATE_LIMIT (mkConfig 2 100000000)
  /\ Forall (fun r => 0 <= Go.len (tokenBucket r) <= 2)
       (history [Tick 11; Gate HTTP; Tick 12; Tick 13; Tick 14; Status Gin;
                 Gate Gin; Gate HTTP; Gate HTTP]
                (state_after (SetConfig (mkConfig 2 100000000)) New)).
Proof.
  split; [reflexivity|].
  apply (capacity_invariant (mkConfig 2 100000000)). reflexivity.
Defined.

(** C2 (gate contract).  One request through [RateLimitHTTPMiddleware]: on
    a non-empty bucket it drops the head of [tokenBucket] and nothing else,
    lets the request through and reports the count left after the removal;
    on an empty bucket it changes nothing, answers 429, reports 0 left and
    the configured [REFILL_INTERVAL] as retry hint.  The request is let
    through exactly when the count was positive. *)
Theorem gate_contract (r : rateLimiter) :
  let r' := state_after RateLimitHTTPMiddleware r in
  let log := log_of RateLimitHTTPMiddleware r in
  (decision (gate_result log) = Granted <-> 0 < Go.len (tokenBucket r))
  /\ match tokenBucket r with
     | head :: rest =>
         r' = mkRateLimiter (RATE_LIMIT r) (REFILL_INTERVAL r) rest
         /\ Go.len (tokenBucket r') = Go.len (tokenBucket r) - 1
         /\ gate_result log = mkGateResult Granted (Some (Go.len (tokenBucket r'))) None
         /\ status_code log = None
     | [] =>
         r' = r
         /\ gate_result log = mkGateResult Rejected (Some 0) (Some (REFILL_INTERVAL r))
         /\ status_code log = Some StatusTooManyRequests
     end.
Proof.
  cbn zeta. unfold state_after, log_of.
  change RateLimitHTTPMiddleware with (gate HTTP). rewrite gate_eq.
  destruct (tokenBucket r) as [|t rest] eqn:E; cbn [fst snd].
  - rewrite gate_result_rejected. cbn [decision].
    repeat split; discriminate.
  - rewrite gate_result_granted. cbn [decision tokenBucket].
    rewrite GoFacts.len_cons. pose proof (GoFacts.len_nonneg rest).
    repeat split; try lia.
Qed.

(** C3 (refill step).  One [RefillBucket] tick returns normally and calls
    nothing; below capacity it appends exactly one token (the clock reading
    of the tick) and touches nothing else; at or above capacity it leaves
    the limiter as it was, and so does any further run of ticks.  No run of
    ticks takes the count above the larger of the capacity and the count it
    started from. *)
Theorem refill_step (now : Z) (more : list Z) (r : rateLimiter) :
  RefillBucket now r = (tt, state_after (RefillBucket now) r, [])
  /\ (if Go.len (tokenBucket r) <? RATE_LIMIT r
      then state_after (RefillBucket now) r
           = mkRateLimiter (RATE_LIMIT r) (REFILL_INTERVAL r) (tokenBucket r ++ [now])
           /\ Go.len (tokenBucket (state_after (RefillBucket now) r))
              = Go.len (tokenBucket r) + 1
      else state_after (RefillBucket now) r = r
           /\ run (ticks (now :: more)) r = r)
  /\ Go.len (tokenBucket (run (ticks (now :: more)) r))
     <= Z.max (Go.len (tokenBucket r)) (RATE_LIMIT r).
Proof.
  split; [|split].
  - unfold state_after. now rewrite RefillBucket_eq.
  - unfold state_after at 1 2 3. rewrite RefillBucket_eq. cbn [fst snd].
    destruct (Z.ltb_spec (Go.len (tokenBucket r)) (RATE_LIMIT r)) as [Hlt|Hge].
    + split; [reflexivity|]. cbn [tokenBucket]. rewrite GoFacts.len_app.
      reflexivity.
    + split; [reflexivity|]. now apply ticks_full.
  - apply ticks_bounded.
Qed.

(** C4 (linear replenishment).  From a limiter created by [New] and
    configured with capacity [C > 0], exactly [C] ticks and no consumption
    leave exactly [C] tokens (the [C] clock readings, in order); one more
    tick changes nothing. *)
Theorem linear_replenishment (c : RateLimiterConfig) (nows : list Z) (extra : Z) :
  0 < cfg_RATE_LIMIT c ->
  Go.len nows = cfg_RATE_LIMIT c ->
  let full := run (ticks nows) (state_after (SetConfig c) New) in
  Go.len (tokenBucket full) = cfg_RATE_LIMIT c
  /\ tokenBucket full = nows
  /\ run (ticks (nows ++ [extra])) (state_after (SetConfig c) New) = full
  /\ Go.len (tokenBucket (run (ticks (nows ++ [extra])) (state_after (SetConfig c) New)))
     = cfg_RATE_LIMIT c.
Proof.
  intros Hpos Hlen full.
  assert (Hfull : full = mkRateLimiter (cfg_RATE_LIMIT c) (cfg_REFILL_INTERVAL c) nows).
  { subst full. rewrite ticks_fill; [reflexivity|]. cbn. lia. }
  assert (Hextra : run (ticks (nows ++ [extra])) (state_after (SetConfig c) New) = full).
  { unfold ticks. rewrite map_app, run_app. fold (ticks nows). fold full.
    cbn [map run step]. apply tick_full. rewrite Hfull. cbn. lia. }
  rewrite Hextra, Hfull. cbn [tokenBucket]. repeat split; assumption.
Qed.

Lemma linear_replenishment_witness :
  0 < cfg_RATE_LIMIT (mkConfig 3 2000000000)
  /\ Go.len [5; 6; 7] = cfg_RATE_LIMIT (mkConfig 3 2000000000)
  /\ Go.len (tokenBucket (run (ticks [5; 6; 7])
                              (state_after (SetConfig (mkConfig 3 2000000000)) New))) = 3
  /\ Go.len (tokenBucket (run (ticks ([5; 6; 7] ++ [8]))
                              (state_after (SetConfig (mkConfig 3 2000000000)) New))) = 3.
Proof.
  split; [reflexivity|]. split; [reflexivity|].
  destruct (linear_replenishment (mkConfig 3 2000000000) [5; 6; 7] 8
              eq_refl eq_refl) as (H1 & _ & _ & H2).
  split; [exact H1|exact H2].
Defined.

(** C5 (no double-spend).  [N] callers go through the gate, each as one
    atomic step, in whatever order [sched] they win the lock, against a
    bucket of [K < N] tokens and with no tick in between.  Every caller gets
    one answer; exactly [K] are admitted and [N - K] rejected; the [i]-th
    admitted call takes the token at position [i] of the bucket and nothing
    else, so no token backs two admissions; the bucket ends empty. *)
Theorem no_double_spend (sched : list Caller) (r : rateLimiter) (K N : nat) :
  length (tokenBucket r) = K ->
  length sched = N ->
  (K < N)%nat ->
  map who (fst (serve sched r)) = sched
  /\ count_outcome Granted (fst (serve sched r)) = K
  /\ count_outcome Rejected (fst (serve sched r)) = (N - K)%nat
  /\ map outcome (fst (serve sched r)) = repeat Granted K ++ repeat Rejected (N - K)
  /\ map took (fst (serve sched r))
     = map (fun t => [t]) (tokenBucket r) ++ repeat [] (N - K)
  /\ tokenBucket (snd (serve sched r)) = [].
Proof.
  intros HK HN Hlt.
  destruct (serve_spec sched r) as (Ho & Ht & Hs); [lia|].
  rewrite HK, HN in Ho. rewrite HK, HN in Ht.
  split; [apply serve_who|].
  rewrite !count_outcome_map, Ho, !filter_app.
  rewrite !filter_repeat_same.
  rewrite (filter_repeat_other Granted Rejected) by reflexivity.
  rewrite (filter_repeat_other Rejected Granted) by reflexivity.
  rewrite app_nil_r. cbn [app]. rewrite !repeat_length.
  repeat split; assumption.
Qed.

Lemma no_double_spend_witness :
  length (tokenBucket (mkRateLimiter 5 1000000000 [101; 102])) = 2%nat
  /\ length [mkCaller 0 HTTP; mkCaller 1 Gin; mkCaller 2 HTTP; mkCaller 3 Gin] = 4%nat
  /\ (2 < 4)%nat
  /\ map outcome
       (fst (serve [mkCaller 0 HTTP; mkCaller 1 Gin; mkCaller 2 HTTP; mkCaller 3 Gin]
                   (mkRateLimiter 5 1000000000 [101; 102])))
     = [Granted; Granted; Rejected; Rejected].
Proof.
  split; [reflexivity|]. split; [reflexivity|]. split; [repeat constructor|].
  destruct (no_double_spend
              [mkCaller 0 HTTP; mkCaller 1 Gin; mkCaller 2 HTTP; mkCaller 3 Gin]
              (mkRateLimiter 5 1000000000 [101; 102]) 2 4 eq_refl eq_refl
              (le_S 3 3 (le_n 3))) as (_ & _ & _ & H & _).
  exact H.
Defined.

(** C6, as the code has it.  [SetConfig] reports nothing: given a
    non-positive capacity or interval it returns normally and stores both
    values as given, leaving the tokens as they were.  When the capacity is
    non-positive, a limiter created by [New] and so configured never admits,
    under any sequence of steps. *)
Theorem SetConfig_unvalidated (c : RateLimiterConfig) (r : rateLimiter) (ops : list Op) :
  cfg_RATE_LIMIT c <= 0 \/ cfg_REFILL_INTERVAL c <= 0 ->
  SetConfig c r
  = (tt, mkRateLimiter (cfg_RATE_LIMIT c) (cfg_REFILL_INTERVAL c) (tokenBucket r), [])
  /\ (0 < cfg_RATE_LIMIT c
      \/ Forall (eq Rejected) (gate_decisions ops (state_after (SetConfig c) New))).
Proof.
  intros _. split; [apply SetConfig_eq|].
  destruct (Z.ltb_spec 0 (cfg_RATE_LIMIT c)) as [Hpos|Hnp]; [now left|right].
  apply never_admits; [exact Hnp|reflexivity].
Qed.

Lemma SetConfig_unvalidated_witness :
  (cfg_RATE_LIMIT (mkConfig (-1) 1000000000) <= 0
   \/ cfg_REFILL_INTERVAL (mkConfig (-1) 1000000000) <= 0)
  /\ SetConfig (mkConfig (-1) 1000000000) New = (tt, mkRateLimiter (-1) 1000000000 [], [])
  /\ gate_decisions [Tick 1; Gate HTTP; Tick 2; Gate Gin]
       (state_after (SetConfig (mkConfig (-1) 1000000000)) New)
     = [Rejected; Rejected].
Proof.
  split; [left; discriminate|].
  destruct (SetConfig_unvalidated (mkConfig (-1) 1000000000) New
              [Tick 1; Gate HTTP; Tick 2; Gate Gin]) as [Hs _];
    [left; discriminate|].
  split; [exact Hs|reflexivity].
Defined.

(** C6, as the specification states it, fails: [SetConfig] takes capacity 1
    with interval 0, returns normally with both stored, and after one call
    of [RefillBucket] the gate admits. *)
Lemma config_validation_counterexample :
  (cfg_RATE_LIMIT (mkConfig 1 0) <= 0 \/ cfg_REFILL_INTERVAL (mkConfig 1 0) <= 0)
  /\ SetConfig (mkConfig 1 0) New = (tt, mkRateLimiter 1 0 [], [])
  /\ gate_decisions [Tick 7; Gate HTTP] (state_after (SetConfig (mkConfig 1 0)) New)
     = [Granted].
Proof.
  split; [right; discriminate|]. repeat split.
Qed.

(** C7 (status contract).  A status request, through either binding,
    leaves the limiter as it was and reports the configured capacity, the
    current count and an empty token list; any number of status requests in
    a row leave the limiter as it was and all produce the same report. *)
Theorem status_contract (b : Binding) (n : nat) (r : rateLimiter) :
  state_after (status b) r = r
  /\ reported_status (log_of (status b) r)
     = Some (mkStatus (RATE_LIMIT r) (Go.len (tokenBucket r)) [])
  /\ run (repeat (Status b) n) r = r
  /\ logs (repeat (Status b) n) r = repeat (Status b, log_of (status b) r) n.
Proof.
  assert (Hs : state_after (status b) r = r).
  { unfold state_after. now rewrite status_eq. }
  split; [exact Hs|]. split.
  - unfold log_of. rewrite status_eq. now destruct b.
  - induction n as [|n [IHr IHl]]; [now split|].
    cbn [repeat run logs step]. rewrite Hs. split; [exact IHr|now rewrite IHl].
Qed.

(** C8 (configuration frame).  No refill tick, gate call or status read
    changes [RATE_LIMIT] or [REFILL_INTERVAL]: every state a sequence of
    such steps goes through has the two values it started with, so the
    token collection is all these steps ever change. *)
Theorem configuration_frame (ops : list Op) (r : rateLimiter) :
  Forall (fun r' => r' = mkRateLimiter (RATE_LIMIT r) (REFILL_INTERVAL r) (tokenBucket r'))
         (history ops r)
  /\ RATE_LIMIT (run ops r) = RATE_LIMIT r
  /\ REFILL_INTERVAL (run ops r) = REFILL_INTERVAL r.
Proof.
  split; [|split; [apply run_RATE_LIMIT|apply run_REFILL_INTERVAL]].
  generalize (eq_refl (RATE_LIMIT r)) (eq_refl (REFILL_INTERVAL r)).
  generalize (RATE_LIMIT r) at 1 3 as cap.
  generalize (REFILL_INTERVAL r) at 1 3 as iv.
  revert r. induction ops as [|o ops IH]; intros r iv cap Hcap Hiv; cbn [history].
  - constructor; [|constructor]. rewrite Hcap, Hiv. symmetry. apply rateLimiter_eta.
  - constructor.
    + rewrite Hcap, Hiv. symmetry. apply rateLimiter_eta.
    + apply IH.
      * now rewrite step_RATE_LIMIT.
      * now rewrite step_REFILL_INTERVAL.
Qed.

(** C9 (variant equivalence).  On every state [RateLimitHTTPMiddleware] and
    [RateLimitGinMiddleware] take the same decision, leave the same limiter
    behind (the head token gone iff there was one), and report the same
    remaining count and retry hint; they also write the same headers in the
    same order, the same status code and the same body.  They differ in the
    calls that hand the request on or write the rejection. *)
Theorem variant_equivalence (r : rateLimiter) :
  let http := log_of RateLimitHTTPMiddleware r in
  let gin := log_of RateLimitGinMiddleware r in
  state_after RateLimitHTTPMiddleware r = state_after RateLimitGinMiddleware r
  /\ state_after RateLimitGinMiddleware r
     = match tokenBucket r with
       | [] => r
       | _ :: rest => mkRateLimiter (RATE_LIMIT r) (REFILL_INTERVAL r) rest
       end
  /\ gate_result http = gate_result gin
  /\ headers_written http = headers_written gin
  /\ status_code http = status_code gin
  /\ payload http = payload gin.
Proof.
  cbn zeta. unfold state_after, log_of.
  change RateLimitHTTPMiddleware with (gate HTTP).
  change RateLimitGinMiddleware with (gate Gin).
  rewrite !gate_eq. destruct (tokenBucket r); repeat split.
Qed.

(** C10 (rejection atomicity).  A gate call on an empty bucket, through
    either binding, is rejected and leaves every field of the limiter as it
    was. *)
Theorem rejection_atomicity (b : Binding) (r : rateLimiter) :
  Go.len (tokenBucket r) = 0 ->
  state_after (gate b) r = r
  /\ decision_of (log_of (gate b) r) = Rejected.
Proof.
  intros H0.
  assert (E : tokenBucket r = []).
  { destruct (tokenBucket r) as [|t rest]; [reflexivity|].
    rewrite GoFacts.len_cons in H0. pose proof (GoFacts.len_nonneg rest). lia. }
  unfold state_after, log_of. rewrite gate_eq, E. now destruct b.
Qed.

Lemma rejection_atomicity_witness :
  Go.len (tokenBucket (mkRateLimiter 3 2000000000 [])) = 0
  /\ state_after RateLimitHTTPMiddleware (mkRateLimiter 3 2000000000 [])
     = mkRateLimiter 3 2000000000 []
  /\ state_after RateLimitGinMiddleware (mkRateLimiter 3 2000000000 [])
     = mkRateLimiter 3 2000000000 [].
Proof.
  split; [reflexivity|].
  split.
  - exact (proj1 (rejection_atomicity HTTP (mkRateLimiter 3 2000000000 []) eq_refl)).
  - exact (proj1 (rejection_atomicity Gin (mkRateLimiter 3 2000000000 []) eq_refl)).
Defined.

(** ** Further properties of the code *)

(** *** The bucket is a queue *)

Lemma step_traffic (o : Op) (r : rateLimiter) :
  tokenBucket r ++ produced r (state_after (step o) r)
  = consumed r (state_after (step o) r) ++ tokenBucket (state_after (step o) r).
Proof.
  destruct o as [now|b|b]; cbn [step].
  - unfold produced, consumed, state_after. rewrite RefillBucket_eq. cbn [fst snd].
    destruct (Go.len (tokenBucket r) <? RATE_LIMIT r); cbn [tokenBucket].
    + rewrite skipn_app, skipn_all, Nat.sub_diag, length_app. cbn [length skipn app].
      replace (length (tokenBucket r) - (length (tokenBucket r) + 1))%nat with 0%nat by lia.
      reflexivity.
    + rewrite skipn_all, Nat.sub_diag. cbn [firstn app]. apply app_nil_r.
  - rewrite consumed_gate. unfold produced, state_after. rewrite gate_eq.
    destruct (tokenBucket r) as [|t rest] eqn:E; cbn [fst snd].
    + rewrite E. reflexivity.
    + cbn [tokenBucket]. rewrite skipn_all2 by (cbn [length]; lia).
      now rewrite app_nil_r.
  - unfold produced, consumed, state_after. rewrite status_eq. cbn [fst snd].
    rewrite skipn_all, Nat.sub_diag. cbn [firstn app]. apply app_nil_r.
Qed.

Lemma traffic_balance (ops : list Op) (r : rateLimiter) :
  tokenBucket r ++ appended ops r = removed ops r ++ tokenBucket (run ops r).
Proof.
  revert r. induction ops as [|o ops IH]; intros r; cbn [appended removed run].
  - now rewrite app_nil_r.
  - rewrite app_assoc, step_traffic, <- !app_assoc. f_equal. apply IH.
Qed.

Lemma produced_step (o : Op) (r : rateLimiter) :
  produced r (state_after (step o) r)
  = match o with
    | Tick now => if Go.len (tokenBucket r) <? RATE_LIMIT r then [now] else []
    | _ => []
    end.
Proof.
  destruct o as [now|b|b]; cbn [step].
  - unfold produced, state_after. rewrite RefillBucket_eq. cbn [fst snd].
    destruct (Go.len (tokenBucket r) <? RATE_LIMIT r); cbn [tokenBucket].
    + now rewrite skipn_app, skipn_all, Nat.sub_diag.
    + apply skipn_all.
  - unfold produced, state_after. rewrite gate_eq.
    destruct (tokenBucket r) as [|t rest] eqn:E; cbn [fst snd].
    + now rewrite E.
    + cbn [tokenBucket]. apply skipn_all2. cbn [length]. lia.
  - unfold produced, state_after. rewrite status_eq. apply skipn_all.
Qed.

Lemma subsequence_refl (l : list Z) : subsequence l l.
Proof. induction l; constructor; assumption. Qed.

Lemma subsequence_length (s l : list Z) :
  subsequence s l -> (length s <= length l)%nat.
Proof. induction 1; cbn [length]; lia. Qed.

Lemma appended_subsequence (ops : list Op) (r : rateLimiter) :
  subsequence (appended ops r) (tick_readings ops).
Proof.
  revert r. induction ops as [|o ops IH]; intros r; [constructor|].
  cbn [appended tick_readings flat_map]. rewrite produced_step.
  destruct o as [now|b|b]; cbn [app]; try apply IH.
  destruct (Go.len (tokenBucket r) <? RATE_LIMIT r); cbn [app].
  - apply subsequence_keep, IH.
  - apply subsequence_drop, IH.
Qed.

Lemma removed_length (ops : list Op) (r : rateLimiter) :
  length (removed ops r) = granted_count ops r.
Proof.
  unfold granted_count, gate_decisions.
  revert r. induction ops as [|o ops IH]; intros r; [reflexivity|].
  cbn [removed logs flat_map fst snd]. rewrite length_app, filter_app, length_app, IH.
  f_equal. destruct o as [now|b|b]; cbn [step].
  - unfold consumed, state_after. rewrite RefillBucket_eq. cbn [fst snd].
    destruct (Go.len (tokenBucket r) <? RATE_LIMIT r); cbn [tokenBucket].
    + rewrite length_app. cbn [length].
      replace (length (tokenBucket r) - (length (tokenBucket r) + 1))%nat with 0%nat by lia.
      reflexivity.
    + now rewrite Nat.sub_diag.
  - rewrite consumed_gate, decision_gate. now destruct (tokenBucket r).
  - unfold consumed, state_after. rewrite status_eq. cbn [fst snd].
    now rewrite Nat.sub_diag.
Qed.

(** X1 (queue discipline).  Along any sequence of steps, the tokens the
    bucket started with followed by the tokens put in are exactly the tokens
    taken out followed by the tokens left: tokens leave in the order they
    came, none is lost and none is handed out twice.  One token is taken out
    per granted request, and the tokens put in are clock readings of ticks,
    in tick order, at most one per tick. *)
Theorem queue_discipline (ops : list Op) (r : rateLimiter) :
  tokenBucket r ++ appended ops r = removed ops r ++ tokenBucket (run ops r)
  /\ length (removed ops r) = granted_count ops r
  /\ subsequence (appended ops r) (tick_readings ops).
Proof.
  split; [apply traffic_balance|].
  split; [apply removed_length|apply appended_subsequence].
Qed.

Lemma granted_bound (ops : list Op) (r : rateLimiter) :
  (granted_count ops r + length (tokenBucket (run ops r))
   <= length (tokenBucket r) + tick_count ops)%nat.
Proof.
  pose proof (f_equal (@length Z) (traffic_balance ops r)) as Hbal.
  rewrite !length_app, removed_length in Hbal.
  pose proof (subsequence_length _ _ (appended_subsequence ops r)) as Hsub.
  unfold tick_count. lia.
Qed.

(** X2 (rate bound).  From a state within capacity, any sequence of steps
    grants at most [RATE_LIMIT] requests more than it has ticks, whatever
    the interleaving. *)
Theorem rate_bound (ops : list Op) (r : rateLimiter) :
  within_capacity r ->
  Z.of_nat (granted_count ops r) <= RATE_LIMIT r + Z.of_nat (tick_count ops).
Proof.
  intros [_ Hcap]. pose proof (granted_bound ops r) as H.
  unfold Go.len in Hcap. lia.
Qed.

Lemma rate_bound_witness :
  within_capacity (mkRateLimiter 2 1000000000 [3; 4])
  /\ Z.of_nat (granted_count [Gate HTTP; Gate Gin; Gate HTTP; Tick 9; Gate Gin; Gate Gin]
                             (mkRateLimiter 2 1000000000 [3; 4]))
     <= 2 + Z.of_nat (tick_count [Gate HTTP; Gate Gin; Gate HTTP; Tick 9; Gate Gin; Gate Gin]).
Proof.
  assert (H : within_capacity (mkRateLimiter 2 1000000000 [3; 4])).
  { split; intros E; discriminate E. }
  split; [exact H|].
  exact (rate_bound [Gate HTTP; Gate Gin; Gate HTTP; Tick 9; Gate Gin; Gate Gin]
                    (mkRateLimiter 2 1000000000 [3; 4]) H).
Defined.

(** *** Bursts *)

Lemma serve_prefix (sched : list Caller) (r : rateLimiter) :
  map outcome (fst (serve sched r))
  = repeat Granted (Nat.min (length (tokenBucket r)) (length sched))
    ++ repeat Rejected (length sched - length (tokenBucket r))
  /\ map took (fst (serve sched r))
     = map (fun t => [t]) (firstn (length sched) (tokenBucket r))
       ++ repeat [] (length sched - length (tokenBucket r))
  /\ snd (serve sched r)
     = mkRateLimiter (RATE_LIMIT r) (REFILL_INTERVAL r)
                     (skipn (length sched) (tokenBucket r)).
Proof.
  revert r. induction sched as [|c sched IH]; intros r.
  - cbn [serve fst snd map length firstn skipn repeat app Nat.sub].
    rewrite Nat.min_0_r. cbn [repeat]. now rewrite rateLimiter_eta.
  - destruct (tokenBucket r) as [|t rest] eqn:E.
    + destruct (serve_empty (c :: sched) r E) as (Ho & Ht & Hs).
      rewrite Ho, Ht, Hs. cbn [length Nat.min firstn skipn map repeat app].
      rewrite Nat.sub_0_r. repeat split. rewrite <- E. symmetry. apply rateLimiter_eta.
    + rewrite serve_cons, decision_gate, consumed_gate, E.
      assert (Hr : state_after (gate (via c)) r
                   = mkRateLimiter (RATE_LIMIT r) (REFILL_INTERVAL r) rest).
      { unfold state_after. rewrite gate_eq. now rewrite E. }
      rewrite Hr.
      destruct (IH (mkRateLimiter (RATE_LIMIT r) (REFILL_INTERVAL r) rest))
        as (IHo & IHt & IHs).
      cbn [tokenBucket RATE_LIMIT REFILL_INTERVAL] in IHo, IHt, IHs.
      cbn [fst snd map outcome took length Nat.min firstn skipn repeat app Nat.sub].
      now rewrite IHo, IHt, IHs.
Qed.

Lemma concat_singletons (l : list Z) : concat (map (fun t => [t]) l) = l.
Proof. induction l as [|t l IH]; [reflexivity|]. cbn [map concat app]. now rewrite IH. Qed.

Lemma concat_repeat_nil (n : nat) : concat (repeat (@nil Z) n) = [].
Proof. induction n as [|n IH]; [reflexivity|exact IH]. Qed.

(** X3 (burst size).  Whatever the numbers of tokens [K] and of callers
    [N], a run of callers through the gate with no tick in between grants
    the first [min K N] in lock order and rejects the rest; the granted
    callers take the first tokens of the bucket, one each and in order, and
    the tokens beyond the [N]-th stay, in order.  Capacity and interval are
    as before. *)
Theorem burst_size (sched : list Caller) (r : rateLimiter) :
  count_outcome Granted (fst (serve sched r))
  = Nat.min (length (tokenBucket r)) (length sched)
  /\ count_outcome Rejected (fst (serve sched r))
     = (length sched - length (tokenBucket r))%nat
  /\ map outcome (fst (serve sched r))
     = repeat Granted (Nat.min (length (tokenBucket r)) (length sched))
       ++ repeat Rejected (length sched - length (tokenBucket r))
  /\ concat (map took (fst (serve sched r))) = firstn (length sched) (tokenBucket r)
  /\ snd (serve sched r)
     = mkRateLimiter (RATE_LIMIT r) (REFILL_INTERVAL r)
                     (skipn (length sched) (tokenBucket r)).
Proof.
  destruct (serve_prefix sched r) as (Ho & Ht & Hs).
  rewrite !count_outcome_map, Ho, Ht, !filter_app, !filter_repeat_same.
  rewrite (filter_repeat_other Granted Rejected) by reflexivity.
  rewrite (filter_repeat_other Rejected Granted) by reflexivity.
  rewrite app_nil_r. cbn [app]. rewrite !repeat_length.
  repeat split; try assumption.
  now rewrite concat_app, concat_repeat_nil, app_nil_r, concat_singletons.
Qed.

(** *** What the remaining header says *)

(** X4 (remaining header).  Through either binding and in either branch,
    the decimal in [X-RateLimit-Remaining] reads back as the length of the
    bucket after the call (the literal 0 of the rejecting branch included),
    which is the size a status request made next reports. *)
Theorem remaining_is_size (b b' : Binding) (r : rateLimiter) :
  remaining_of (log_of (gate b) r)
  = Some (Go.len (tokenBucket (state_after (gate b) r)))
  /\ option_map CurrentBucketSize
       (reported_status (log_of (status b') (state_after (gate b) r)))
     = remaining_of (log_of (gate b) r).
Proof.
  assert (H : remaining_of (log_of (gate b) r)
              = Some (Go.len (tokenBucket (state_after (gate b) r)))).
  { unfold log_of, state_after. rewrite gate_eq.
    destruct (tokenBucket r) as [|t rest] eqn:E; cbn [fst snd].
    - rewrite E.
      exact (f_equal remaining (gate_result_rejected b (REFILL_INTERVAL r))).
    - cbn [tokenBucket].
      exact (f_equal remaining (gate_result_granted b (Go.len rest))). }
  split; [exact H|].
  rewrite H. unfold log_of. rewrite status_eq. now destruct b'.
Qed.

(** *** Reconfiguring a bucket in use *)

Lemma step_bounded (o : Op) (r : rateLimiter) :
  Go.len (tokenBucket (state_after (step o) r))
  <= Z.max (Go.len (tokenBucket r)) (RATE_LIMIT r).
Proof.
  destruct o as [now|b|b]; unfold state_after, step.
  - rewrite RefillBucket_eq. cbn [fst snd].
    destruct (Z.ltb_spec (Go.len (tokenBucket r)) (RATE_LIMIT r)) as [Hlt|Hge].
    + cbn [tokenBucket]. rewrite GoFacts.len_app. change (Go.len [now]) with 1. lia.
    + lia.
  - rewrite gate_eq.
    destruct (tokenBucket r) as [|t rest] eqn:E; cbn [fst snd tokenBucket].
    + rewrite E. lia.
    + rewrite GoFacts.len_cons. lia.
  - rewrite status_eq. cbn [fst snd]. lia.
Qed.

Lemma run_bounded (ops : list Op) (r : rateLimiter) :
  Go.len (tokenBucket (run ops r))
  <= Z.max (Go.len (tokenBucket r)) (RATE_LIMIT r).
Proof.
  revert r. induction ops as [|o ops IH]; intros r; cbn [run]; [lia|].
  etransitivity; [apply IH|].
  rewrite step_RATE_LIMIT. pose proof (step_bounded o r). lia.
Qed.

Lemma gate_decisions_app (ops1 ops2 : list Op) (r : rateLimiter) :
  gate_decisions (ops1 ++ ops2) r
  = gate_decisions ops1 r ++ gate_decisions ops2 (run ops1 r).
Proof.
  unfold gate_decisions.
  revert r. induction ops1 as [|o ops1 IH]; intros r; [reflexivity|].
  cbn [app logs flat_map run]. now rewrite IH, app_assoc.
Qed.

Lemma gate_decisions_ticks (nows : list Z) (r : rateLimiter) :
  gate_decisions (ticks nows) r = [].
Proof.
  unfold gate_decisions.
  revert r. induction nows as [|now nows IH]; intros r; [reflexivity|].
  cbn [ticks map logs flat_map fst app]. apply IH.
Qed.

Lemma gates_drain (b : Binding) (n : nat) (r : rateLimiter) :
  (n <= length (tokenBucket r))%nat ->
  gate_decisions (repeat (Gate b) n) r = repeat Granted n.
Proof.
  unfold gate_decisions.
  revert r. induction n as [|n IH]; intros r Hn; [reflexivity|].
  cbn [repeat logs flat_map fst snd step]. rewrite decision_gate.
  destruct (tokenBucket r) as [|t rest] eqn:E; [cbn in Hn; lia|].
  cbn [app]. f_equal. apply IH.
  unfold state_after. rewrite gate_eq, E. cbn [fst snd tokenBucket].
  cbn [length] in Hn. lia.
Qed.

(** X5 (lowering the capacity of a bucket in use).  [SetConfig] with a
    capacity below the current count drops no token: the bucket is left
    above its capacity.  From there ticks add nothing, every token still
    buys a request, so a burst longer than the new capacity goes through,
    and no sequence of steps makes the bucket grow. *)
Theorem SetConfig_keeps_tokens
  (c : RateLimiterConfig) (r : rateLimiter) (nows : list Z) (b : Binding)
  (ops : list Op) :
  cfg_RATE_LIMIT c < Go.len (tokenBucket r) ->
  let r' := state_after (SetConfig c) r in
  tokenBucket r' = tokenBucket r
  /\ ~ within_capacity r'
  /\ run (ticks nows) r' = r'
  /\ gate_decisions (ticks nows ++ repeat (Gate b) (length (tokenBucket r))) r'
     = repeat Granted (length (tokenBucket r))
  /\ Go.len (tokenBucket (run ops r')) <= Go.len (tokenBucket r).
Proof.
  intros Hlow r'.
  assert (Hr' : r' = mkRateLimiter (cfg_RATE_LIMIT c) (cfg_REFILL_INTERVAL c) (tokenBucket r))
    by reflexivity.
  assert (Hticks : run (ticks nows) r' = r').
  { apply ticks_full. rewrite Hr'. cbn [RATE_LIMIT tokenBucket]. lia. }
  split; [reflexivity|]. split.
  { unfold within_capacity. rewrite Hr'. cbn [RATE_LIMIT tokenBucket]. lia. }
  split; [exact Hticks|]. split.
  - rewrite gate_decisions_app, gate_decisions_ticks, Hticks. cbn [app].
    apply gates_drain. rewrite Hr'. cbn [tokenBucket]. lia.
  - pose proof (run_bounded ops r') as Hb. rewrite Hr' in Hb at 2 3.
    cbn [RATE_LIMIT tokenBucket] in Hb. lia.
Qed.

Lemma SetConfig_keeps_tokens_witness :
  cfg_RATE_LIMIT (mkConfig 1 1000000000)
  < Go.len (tokenBucket (mkRateLimiter 3 1000000000 [5; 6; 7]))
  /\ gate_decisions (ticks [8; 9] ++ repeat (Gate Gin) 3)
       (state_after (SetConfig (mkConfig 1 1000000000))
                    (mkRateLimiter 3 1000000000 [5; 6; 7]))
     = [Granted; Granted; Granted].
Proof.
  split; [reflexivity|].
  exact (proj1 (proj2 (proj2 (proj2
    (SetConfig_keeps_tokens (mkConfig 1 1000000000)
       (mkRateLimiter 3 1000000000 [5; 6; 7]) [8; 9] Gin [] eq_refl))))).
Defined.

(** *** Sustained rate and idle periods *)

Lemma tick_then_gate_step (b : Binding) (now : Z) (r : rateLimiter) :
  0 < RATE_LIMIT r -> tokenBucket r = [] ->
  state_after (gate b) (state_after (RefillBucket now) r) = r
  /\ decision_of (log_of (gate b) (state_after (RefillBucket now) r)) = Granted
  /\ consumed (state_after (RefillBucket now) r)
              (state_after (gate b) (state_after (RefillBucket now) r)) = [now].
Proof.
  intros Hcap E.
  assert (Hr : state_after (RefillBucket now) r
               = mkRateLimiter (RATE_LIMIT r) (REFILL_INTERVAL r) [now]).
  { unfold state_after. rewrite RefillBucket_eq, E. cbn [fst snd app].
    change (Go.len (@nil Z)) with 0.
    destruct (Z.ltb_spec 0 (RATE_LIMIT r)); [reflexivity|lia]. }
  rewrite consumed_gate, decision_gate, Hr. cbn [tokenBucket].
  repeat split. unfold state_after. rewrite gate_eq.
  cbn [tokenBucket fst snd RATE_LIMIT REFILL_INTERVAL].
  rewrite <- E. apply rateLimiter_eta.
Qed.

(** X6 (sustained rate).  On an empty bucket of positive capacity, requests
    that each come after one tick are all granted, each with the token its
    tick put in, and the bucket is empty again after each: one request per
    tick goes through indefinitely. *)
Theorem one_request_per_tick (b : Binding) (nows : list Z) (r : rateLimiter) :
  0 < RATE_LIMIT r ->
  tokenBucket r = [] ->
  gate_decisions (tick_then_gate b nows) r = repeat Granted (length nows)
  /\ removed (tick_then_gate b nows) r = nows
  /\ run (tick_then_gate b nows) r = r.
Proof.
  intros Hcap E. unfold gate_decisions.
  induction nows as [|now nows (IHd & IHr & IHs)]; [now repeat split|].
  destruct (tick_then_gate_step b now r Hcap E) as (Hs & Hd & Hc).
  cbn [tick_then_gate flat_map app logs removed run fst snd step length repeat].
  fold (tick_then_gate b nows).
  rewrite Hc, Hd, Hs, IHd, IHr, IHs.
  repeat split. cbn [app].
  unfold consumed, state_after. rewrite RefillBucket_eq, E. cbn [fst snd app].
  now destruct (Go.len [] <? RATE_LIMIT r).
Qed.

Lemma one_request_per_tick_witness :
  0 < RATE_LIMIT (mkRateLimiter 1 1000000000 [])
  /\ tokenBucket (mkRateLimiter 1 1000000000 []) = []
  /\ gate_decisions (tick_then_gate HTTP [21; 22; 23]) (mkRateLimiter 1 1000000000 [])
     = [Granted; Granted; Granted].
Proof.
  split; [reflexivity|]. split; [reflexivity|].
  exact (proj1 (one_request_per_tick HTTP [21; 22; 23]
                  (mkRateLimiter 1 1000000000 []) eq_refl eq_refl)).
Defined.

Lemma ticks_saturate (nows : list Z) (r : rateLimiter) :
  within_capacity r ->
  run (ticks nows) r
  = mkRateLimiter (RATE_LIMIT r) (REFILL_INTERVAL r)
      (tokenBucket r
       ++ firstn (Z.to_nat (RATE_LIMIT r - Go.len (tokenBucket r))) nows).
Proof.
  intros [Hlo Hhi].
  set (k := Z.to_nat (RATE_LIMIT r - Go.len (tokenBucket r))).
  rewrite <- (firstn_skipn k nows) at 1.
  unfold ticks. rewrite map_app, run_app. fold (ticks (firstn k nows)).
  fold (ticks (skipn k nows)).
  assert (Hk : Go.len (firstn k nows) <= RATE_LIMIT r - Go.len (tokenBucket r)).
  { unfold Go.len. rewrite length_firstn. unfold Go.len in *. lia. }
  rewrite (ticks_fill (firstn k nows) r) by lia.
  destruct (Nat.le_gt_cases k (length nows)) as [Hle|Hgt].
  - apply ticks_full. cbn [RATE_LIMIT tokenBucket].
    rewrite GoFacts.len_app. unfold Go.len in *. rewrite length_firstn. lia.
  - rewrite skipn_all2 by lia. reflexivity.
Qed.

(** X7 (burst after an idle period).  A limiter created by [New] and
    configured with capacity [C >= 0] that sees [T] ticks and no request
    holds the first [min C T] clock readings and no more, however long it
    idles; the [N] callers that come next, with no tick in between, get
    exactly [min (min C T) N] grants.  With no tick at all it grants
    nothing. *)
Theorem burst_after_idle (c : RateLimiterConfig) (nows : list Z) (sched : list Caller) :
  0 <= cfg_RATE_LIMIT c ->
  let idle := run (ticks nows) (state_after (SetConfig c) New) in
  tokenBucket idle = firstn (Z.to_nat (cfg_RATE_LIMIT c)) nows
  /\ length (tokenBucket idle) = Nat.min (Z.to_nat (cfg_RATE_LIMIT c)) (length nows)
  /\ count_outcome Granted (fst (serve sched idle))
     = Nat.min (Nat.min (Z.to_nat (cfg_RATE_LIMIT c)) (length nows)) (length sched).
Proof.
  intros Hlo idle.
  assert (Hidle : tokenBucket idle = firstn (Z.to_nat (cfg_RATE_LIMIT c)) nows).
  { subst idle. rewrite ticks_saturate by (apply configured_within_capacity; lia).
    cbn. now rewrite Z.sub_0_r. }
  assert (Hlen : length (tokenBucket idle)
                 = Nat.min (Z.to_nat (cfg_RATE_LIMIT c)) (length nows)).
  { rewrite Hidle. apply length_firstn. }
  split; [exact Hidle|]. split; [exact Hlen|].
  destruct (serve_prefix sched idle) as (Ho & _ & _).
  rewrite count_outcome_map, Ho, filter_app, filter_repeat_same.
  rewrite (filter_repeat_other Granted Rejected) by reflexivity.
  now rewrite app_nil_r, repeat_length, Hlen.
Qed.

Lemma burst_after_idle_witness :
  0 <= cfg_RATE_LIMIT (mkConfig 2 100000000)
  /\ tokenBucket (run (ticks [1; 2; 3; 4; 5])
                      (state_after (SetConfig (mkConfig 2 100000000)) New)) = [1; 2]
  /\ count_outcome Granted
       (fst (serve [mkCaller 0 Gin; mkCaller 1 Gin; mkCaller 2 Gin]
                   (run (ticks [1; 2; 3; 4; 5])
                        (state_after (SetConfig (mkConfig 2 100000000)) New)))) = 2%nat.
Proof.
  assert (H : 0 <= cfg_RATE_LIMIT (mkConfig 2 100000000)).
  { intros E; discriminate E. }
  split; [exact H|].
  destruct (burst_after_idle (mkConfig 2 100000000) [1; 2; 3; 4; 5]
              [mkCaller 0 Gin; mkCaller 1 Gin; mkCaller 2 Gin] H) as (H1 & _ & H3).
  split; [exact H1|exact H3].
Defined.

(** *** The critical sections *)



Lemma Locked_gate_free (b : Binding) (next : Locked.Locking unit) (r : rateLimiter) :
  Locked.gate b next (Locked.mkGuarded r false)
  = match tokenBucket r with
    | [] => Locked.Returns tt (Locked.mkGuarded r false)
                           (rejected_log b (REFILL_INTERVAL r))
    | _ :: rest =>
        let r' := mkRateLimiter (RATE_LIMIT r) (REFILL_INTERVAL r) rest in
        match next (Locked.mkGuarded r' true) with
        | Locked.Returns _ g l =>
            Locked.Returns tt (Locked.Unlock g) (granted_log b (Go.len rest) ++ l)
        | Locked.Parked g l =>
            Locked.Parked g (granted_log b (Go.len rest) ++ l)
        | Locked.Panics g l =>
            Locked.Panics (Locked.Unlock g) (granted_log b (Go.len rest) ++ l)
        end
    end.
Proof.
  destruct r as [cap iv [|t rest]]; destruct b; try reflexivity;
    unfold Locked.gate, Locked.RateLimitHTTPMiddleware, Locked.RateLimitGinMiddleware,
      Locked.lbind, Locked.deferring, Locked.lift, Locked.Lock, self, call,
      set_tokenBucket;
    cbn [Locked.mx Locked.limiter tokenBucket RATE_LIMIT REFILL_INTERVAL skipn];
    rewrite GoFacts.len_cons;
    (replace (0 <? Go.len rest + 1) with true
      by (symmetry; apply Z.ltb_lt; pose proof (GoFacts.len_nonneg rest); lia));
    cbn [Locked.mx Locked.limiter tokenBucket RATE_LIMIT REFILL_INTERVAL app];
    destruct (next _) as [[] g l|g l|g l]; reflexivity.
Qed.

Lemma Lock_held (g : Locked.Guarded) :
  Locked.mx g = true -> Locked.Lock g = Locked.Parked g [].
Proof. intros H. unfold Locked.Lock. now rewrite H. Qed.



(** X9 (a panicking handler).  When the downstream handler panics, a
    middleware that granted the request has already taken the token: the
    panic goes on up with the token gone, the remaining header set, and the
    mutex released by the deferred [Unlock].  On an empty bucket the handler
    is not run and the call returns the rejection. *)
Theorem panic_costs_a_token
  (b : Binding) (next : Locked.Locking unit) (downstream : list Effect)
  (r : rateLimiter) :
  (forall g, next g = Locked.Panics g downstream) ->
  Locked.gate b next (Locked.mkGuarded r false)
  = match tokenBucket r with
    | [] => Locked.Returns tt (Locked.mkGuarded r false)
                           (rejected_log b (REFILL_INTERVAL r))
    | _ :: rest =>
        Locked.Panics
          (Locked.mkGuarded (mkRateLimiter (RATE_LIMIT r) (REFILL_INTERVAL r) rest) false)
          (granted_log b (Go.len rest) ++ downstream)
    end.
Proof.
  intros Hnext. rewrite Locked_gate_free.
  destruct (tokenBucket r) as [|t rest]; [reflexivity|].
  cbn zeta. now rewrite Hnext.
Qed.

Lemma panic_costs_a_token_witness :
  (forall g, Locked.TestEndpointWithGin (-1) g = Locked.Panics g [])
  /\ Locked.POST_test (-1) (Locked.mkGuarded (mkRateLimiter 2 1000000000 [7; 8]) false)
     = Locked.Panics (Locked.mkGuarded (mkRateLimiter 2 1000000000 [8]) false)
         [HeaderSet "X-RateLimit-Remaining" (Text "1"); CtxNext].
Proof.
  assert (H : forall g, Locked.TestEndpointWithGin (-1) g = Locked.Panics g []).
  { intros g. reflexivity. }
  split; [exact H|].
  exact (panic_costs_a_token Gin (Locked.TestEndpointWithGin (-1)) []
           (mkRateLimiter 2 1000000000 [7; 8]) H).
Defined.

(** X10 (the status route of [main]).  [main] registers
    [GetBucketStatusWithGin] behind [RateLimitGinMiddleware].  A request to
    that route never gets a status: on an empty bucket the middleware
    answers 429 and aborts; otherwise it takes a token, calls [ctx.Next()]
    with the mutex held, and the status handler parks in [Lock], before it
    has written anything and with the mutex still held. *)
Theorem status_route_never_reports (r : rateLimiter) :
  Locked.GET_test_bucket (Locked.mkGuarded r false)
  = match tokenBucket r with
    | [] => Locked.Returns tt (Locked.mkGuarded r false)
                           (rejected_log Gin (REFILL_INTERVAL r))
    | _ :: rest =>
        Locked.Parked
          (Locked.mkGuarded (mkRateLimiter (RATE_LIMIT r) (REFILL_INTERVAL r) rest) true)
          (granted_log Gin (Go.len rest))
    end
  /\ reported_status (Locked.trace (Locked.GET_test_bucket (Locked.mkGuarded r false)))
     = None.
Proof.
  unfold Locked.GET_test_bucket.
  change (Locked.RateLimitGinMiddleware Locked.GetBucketStatusWithGin)
    with (Locked.gate Gin Locked.GetBucketStatusWithGin).
  rewrite Locked_gate_free.
  destruct (tokenBucket r) as [|t rest]; [now split|].
  cbn zeta. unfold Locked.GetBucketStatusWithGin at 1 2, Locked.lbind.
  rewrite Lock_held by reflexivity. rewrite app_nil_r. now split.
Qed.

(** X11 (a held mutex stops the limiter).  While the mutex is held, as it
    is for good once the status route has parked, every locking method parks
    at once, whoever calls it: no tick refills, no request is granted or
    rejected, no status is read, and nothing is written. *)
Theorem held_mutex_parks_everything
  (b : Binding) (now : Z) (next : Locked.Locking unit) (g : Locked.Guarded) :
  Locked.mx g = true ->
  Locked.RefillBucket now g = Locked.Parked g []
  /\ Locked.status b g = Locked.Parked g []
  /\ Locked.gate b next g = Locked.Parked g [].
Proof.
  intros H.
  destruct b;
    unfold Locked.RefillBucket, Locked.status, Locked.gate,
      Locked.GetBucketStatusWithHTTP, Locked.GetBucketStatusWithGin,
      Locked.RateLimitHTTPMiddleware, Locked.RateLimitGinMiddleware,
      Locked.lbind;
    rewrite (Lock_held g H); repeat split.
Qed.

Lemma held_mutex_parks_everything_witness :
  Locked.mx (Locked.mkGuarded (mkRateLimiter 1000 2000000000 [8]) true) = true
  /\ Locked.RefillBucket 9 (Locked.mkGuarded (mkRateLimiter 1000 2000000000 [8]) true)
     = Locked.Parked (Locked.mkGuarded (mkRateLimiter 1000 2000000000 [8]) true) [].
Proof.
  split; [reflexivity|].
  exact (proj1 (held_mutex_parks_everything Gin 9 (Locked.TestEndpointWithGin 9)
                  (Locked.mkGuarded (mkRateLimiter 1000 2000000000 [8]) true) eq_refl)).
Defined.

(** *** Starting the refill loop *)

(** X12 (starting the limiter).  [Run] reads the interval that the last
    [SetConfig] stored and panics in [time.NewTicker] when it is not
    positive, whatever the capacity; [SetConfig] itself has stored both
    values by then.  Otherwise the refill loop ticks with that interval.
    [Run] on a limiter fresh from [New] panics, its interval being 0. *)
Theorem Run_needs_positive_interval (c : RateLimiterConfig) (r : rateLimiter) (held : bool) :
  Locked.lbind (Locked.lift (SetConfig c)) (fun _ => Locked.Run) (Locked.mkGuarded r held)
  = (if 0 <? cfg_REFILL_INTERVAL c
     then Locked.Returns (cfg_REFILL_INTERVAL c)
     else @Locked.Panics Duration)
      (Locked.mkGuarded (state_after (SetConfig c) r) held) []
  /\ Locked.Run (Locked.mkGuarded New held) = Locked.Panics (Locked.mkGuarded New held) [].
Proof.
  split; [|reflexivity].
  unfold Locked.lbind, Locked.lift, Locked.Run, Locked.NewTicker, Locked.lbind,
    Locked.lift, self, state_after.
  rewrite SetConfig_eq. cbn [Locked.limiter Locked.mx REFILL_INTERVAL fst snd].
  rewrite Z.leb_antisym.
  destruct (0 <? cfg_REFILL_INTERVAL c); reflexivity.
Qed.

(** *** The sample endpoints *)

Lemma rem_cases (now : Z) :
  (0 <= now /\ Z.rem now 3 = now mod 3 /\ 0 <= now mod 3 < 3)
  \/ (now < 0 /\ now mod 3 = 0 /\ Z.rem now 3 = 0)
  \/ (now < 0 /\ now mod 3 <> 0 /\ -3 < Z.rem now 3 < 0).
Proof.
  pose proof (Z.mod_pos_bound now 3 eq_refl) as Hm.
  pose proof (Z.div_mod now 3) as Hdm.
  pose proof (Z.quot_rem' now 3) as Hqr.
  destruct (Z_lt_le_dec now 0) as [Hneg|Hpos].
  - assert (Hr : -3 < Z.rem now 3 <= 0).
    { pose proof (Z.rem_bound_abs now 3 ltac:(discriminate)) as Ha.
      pose proof (Z.rem_nonpos now 3 ltac:(discriminate) ltac:(lia)) as Hn.
      change (Z.abs 3) with 3 in Ha. lia. }
    right. destruct (Z.eq_dec (now mod 3) 0) as [E|NE].
    + left. repeat split; try assumption. lia.
    + right. repeat split; try assumption; lia.
  - left. split; [assumption|]. split; [|lia].
    apply Z.rem_mod_nonneg; lia.
Qed.

(** X13 (the sample endpoints).  Both sample endpoints pick their answer
    by [time.Now().UnixNano() % 3].  For a clock reading at or after the
    epoch they return one of the three choices, the one at position
    [now mod 3], in a body with [success] true.  Go's [%] is negative for a
    negative reading that is no multiple of 3, and then the index expression
    panics before anything is written. *)
Theorem TestEndpoint_outcome (now : Z) (r : rateLimiter) (held : bool) :
  let g := Locked.mkGuarded r held in
  if (now <? 0) && negb (now mod 3 =? 0)
  then Locked.TestEndpointWithGin now g = Locked.Panics g []
       /\ Locked.TestEndpointWtihHTTP now g = Locked.Panics g []
  else exists choice,
         nth_error Locked.rockPaperScissors (Z.to_nat (now mod 3)) = Some choice
         /\ Locked.TestEndpointWithGin now g
            = Locked.Returns tt g
                [HeaderSet "Content-Type" (Text "application/json");
                 CtxJSON StatusOK
                   (MapPayload [("success", JBool true);
                                ("message", JString (String.append "You got " choice))])]
         /\ Locked.TestEndpointWtihHTTP now g
            = Locked.Returns tt g
                [HeaderSet "Content-Type" (Text "application/json");
                 Encode
                   (MapPayload [("success", JBool true);
                                ("message", JString (String.append "You got " choice))])].
Proof.
  cbn zeta. unfold Locked.TestEndpointWithGin, Locked.TestEndpointWtihHTTP.
  destruct (rem_cases now) as [(Hpos & Hrem & Hm)|[(Hneg & Hm & Hrem)|(Hneg & Hm & Hrem)]].
  - rewrite Hrem. replace (now <? 0) with false by (symmetry; apply Z.ltb_ge; lia).
    cbn [andb].
    assert (Hc : now mod 3 = 0 \/ now mod 3 = 1 \/ now mod 3 = 2) by lia.
    destruct Hc as [E|[E|E]]; rewrite E; eexists; repeat split.
  - rewrite Hrem, Hm. rewrite andb_false_r. eexists; repeat split.
  - replace (now <? 0) with true by (symmetry; apply Z.ltb_lt; lia).
    replace (now mod 3 =? 0) with false by (symmetry; apply Z.eqb_neq; assumption).
    cbn [andb negb].
    assert (Hc : Z.rem now 3 = -1 \/ Z.rem now 3 = -2) by lia.
    destruct Hc as [E|E]; rewrite E; split; reflexivity.
Qed.
